(** * The payment ledger of payment-app-backend (src/index.js)

    A shallow embedding of the Express handlers of [src/index.js] and of
    the PostgreSQL session they talk to.

    - JavaScript values of the request body are [JsValue]; a JavaScript
      number is [JsNum] (an integer or NaN).
    - The two tables are a [Db]; a connection checked out of the pool is a
      [Session] holding the pending writes of its open transaction.
    - A handler is a [Prog]: a tree of effects ([await pool.connect()],
      [await client.query(..)], [client.release()]) with the JavaScript
      control flow ([try]/[catch]/[finally], early [return]) written out.
    - [run] executes one handler alone, with an oracle that says which
      awaited calls are rejected by the driver; [run_schedule] interleaves
      several handlers at their [await] points.

    Numeric model: the amounts and dues of the model are integers ([Z], a
    whole number of the smallest currency unit). The store keeps them
    exactly; JavaScript keeps them as doubles, so [parseFloat] and the
    subtraction of the source round to 53 bits ([to_double]). Amounts with
    a fraction or an exponent, NaN and the infinities are outside the
    model: the properties below speak of integer amounts only. *)

From Stdlib Require Import ZArith Ascii.
From stdpp Require Import gmap strings list fin_maps sorting pretty.

Open Scope Z_scope.

(** ** JavaScript values *)

Module Js.

(** What [req.body] can hold in a field after [bodyParser.json()]:
    a missing key reads as [undefined]. JSON arrays and objects are not
    modelled. *)
Inductive JsValue :=
| JUndefined
| JNull
| JBool (b : bool)
| JNum (n : Z)
| JStr (s : string).

Inductive JsNum :=
| NaN
| Num (n : Z).

#[global] Instance JsValue_eq_dec : EqDecision JsValue.
Proof. solve_decision. Defined.
#[global] Instance JsNum_eq_dec : EqDecision JsNum.
Proof. solve_decision. Defined.

(** ToBoolean: [undefined], [null], [false], [0] and the empty string are
    falsy. *)
Definition truthy (v : JsValue) : bool :=
  match v with
  | JUndefined | JNull => false
  | JBool b => b
  | JNum n => negb (n =? 0)
  | JStr s => negb (String.eqb s "")
  end.

(** [a || b] *)
Definition js_or (a b : JsValue) : JsValue := if truthy a then a else b.

(** Decimal digits and white space of a numeric literal. *)
Definition digit_val (c : ascii) : option Z :=
  let n := Z.of_nat (nat_of_ascii c) in
  if (48 <=? n) && (n <=? 57) then Some (n - 48) else None.

Definition is_space (c : ascii) : bool :=
  let n := nat_of_ascii c in
  (n =? 32)%nat || ((9 <=? n) && (n <=? 13))%nat.

Fixpoint skip_spaces (s : string) : string :=
  match s with
  | String c s' => if is_space c then skip_spaces s' else s
  | EmptyString => s
  end.

(** Reads the sign in front of the digits. *)
Definition read_sign (s : string) : bool * string :=
  match s with
  | String "-" s' => (true, s')
  | String "+" s' => (false, s')
  | _ => (false, s)
  end.

(** Reads the longest run of digits at the head of [s]: its value when
    there is at least one digit, and the unread rest. *)
Fixpoint read_digits (acc : option Z) (s : string) : option Z * string :=
  match s with
  | String c s' =>
      match digit_val c with
      | Some d => read_digits (Some (10 * default 0 acc + d)) s'
      | None => (acc, s)
      end
  | EmptyString => (acc, s)
  end.

Definition apply_sign (neg : bool) (n : Z) : Z := if neg then - n else n.

(** The double nearest to the integer [z]: [z] itself up to 2^53, beyond
    that [z] rounded to 53 significant bits, ties to even. (A double
    overflows to an infinity from 2^1024 on; that is not modelled.) *)
Definition to_double (z : Z) : Z :=
  let a := Z.abs z in
  if a <? 2 ^ 53 then z
  else
    let e := Z.log2 a - 52 in
    let q := Z.shiftr a e in
    let r := a - Z.shiftl q e in
    let half := Z.shiftl 1 (e - 1) in
    let q' := if (half <? r) || ((r =? half) && Z.odd q) then q + 1 else q in
    Z.sgn z * Z.shiftl q' e.

Arguments to_double : simpl never.

(** The integers up to 2^53 in size. A double holds each of them, so on
    them the arithmetic of the source is that of the integers, and
    [toString] writes each of them with all its digits (a larger double is
    written with the fewest digits that identify it, followed by zeros). *)
Definition exact (z : Z) : Prop := - 2 ^ 53 ≤ z ≤ 2 ^ 53.

(** [parseFloat] of a string: leading white space is skipped, the longest
    numeric prefix is read and what follows it is ignored; NaN when there
    is no such prefix. Only integer literals are modelled. *)
Definition parseFloat_str (s : string) : JsNum :=
  let '(neg, s1) := read_sign (skip_spaces s) in
  match read_digits None s1 with
  | (Some n, _) => Num (to_double (apply_sign neg n))
  | (None, _) => NaN
  end.

(** [parseFloat(v)] is [parseFloat] of [String(v)]. [JNum n] is the
    number that [JSON.parse] makes of the literal [n], a double. *)
Definition parseFloat (v : JsValue) : JsNum :=
  match v with
  | JNum n => Num (to_double n)
  | JStr s => parseFloat_str s
  | JUndefined | JNull | JBool _ => NaN
  end.

(** [a - b] on numbers: the double nearest to the difference. *)
Definition js_sub (a b : JsNum) : JsNum :=
  match a, b with
  | Num x, Num y => Num (to_double (x - y))
  | _, _ => NaN
  end.

End Js.
Export Js.

(** ** The store *)

(** Modelled from the spec: the table declarations are not part of the
    repository. Section 6 gives the persisted layout
    [customers(account_number PK, emi_due, ...)] and
    [payments(id PK, customer_account_number FK, payment_amount, status,
    payment_date)]; [customers] is therefore a map keyed by its primary key,
    [id] comes from a sequence and [payment_date] is stamped by the server
    at insertion. *)
Record Customer := mkCustomer {
  emi_due : Z;
  other_columns : list (string * string)
}.

Record Payment := mkPayment {
  id : Z;
  customer_account_number : string;
  payment_amount : Z;
  status : string;
  payment_date : Z
}.

#[global] Instance Customer_eq_dec : EqDecision Customer.
Proof. solve_decision. Defined.
#[global] Instance Payment_eq_dec : EqDecision Payment.
Proof. solve_decision. Defined.

Definition set_emi_due (v : Z) (c : Customer) : Customer :=
  {| emi_due := v; other_columns := other_columns c |}.

(** The committed state of the database, the sequence behind
    [payments.id] and the server clock (seconds, in the time zone of the
    session). *)
Record Db := mkDb {
  customers : gmap string Customer;
  payments : list Payment;
  payments_id_seq : Z;
  now : Z
}.

(** The writes of an open transaction, invisible to other sessions until
    COMMIT: inserted payment rows and new values of [emi_due]. A pending
    [emi_due] holds the row lock of that customer. *)
Record Txn := mkTxn {
  t_payments : list Payment;
  t_emi_due : gmap string Z
}.

Definition empty_txn : Txn := {| t_payments := []; t_emi_due := ∅ |}.

(** What one handler invocation holds: the number of pool clients it has
    checked out and not released, and the transaction open on its client. *)
Record Session := mkSession {
  held : nat;
  txn : option Txn
}.

(** An invocation starts with no client and no open transaction. *)
Definition fresh : Session := {| held := 0; txn := None |}.

(** ** SQL statements of the source and their execution *)

Module Pg.

(** How node-postgres sends a parameter ([prepareValue]): [null] and
    [undefined] as SQL NULL, everything else as [val.toString()], which for
    an [exact] integer is its decimal notation. The text of a larger
    number is not modelled: the properties below that speak of a number
    sent to the server ask it to be [exact]. *)
Definition pg_text (v : JsValue) : option string :=
  match v with
  | JUndefined | JNull => None
  | JBool b => Some (if b then "true" else "false")
  | JNum n => Some (pretty (to_double n))
  | JStr s => Some s
  end.

(** The server's input conversion of a text parameter to a number, for
    the integer literals: white space, an optional sign, digits, white
    space. The server keeps every digit. It also reads text that is not
    an integer literal (a fraction, an exponent, NaN), which an integer
    cannot hold: that text is outside the model, see [integer_amount]. *)
Definition numeric_in (s : string) : option Z :=
  let '(neg, s1) := read_sign (skip_spaces s) in
  match read_digits None s1 with
  | (Some n, rest) =>
      if String.eqb (skip_spaces rest) "" then Some (apply_sign neg n) else None
  | (None, _) => None
  end.

Definition pg_numeric (v : JsValue) : option Z :=
  match v with
  | JNum n => Some (to_double n)
  | JStr s => numeric_in s
  | JUndefined | JNull | JBool _ => None
  end.


(** The statements [src/index.js] sends, with their parameters. *)
Inductive Stmt :=
| BEGIN
| COMMIT
| ROLLBACK
(** [SELECT emi_due FROM customers WHERE account_number = $1] *)
| SelectEmiDue (account_number : JsValue)
(** [INSERT INTO payments (customer_account_number, payment_amount, status)
    VALUES ($1, $2, $3) RETURNING *] *)
| InsertPayment (account_number amount : JsValue) (status : string)
(** [UPDATE customers SET emi_due = $1 WHERE account_number = $2] *)
| UpdateEmiDue (newDue : JsNum) (account_number : JsValue)
(** [SELECT * FROM payments ORDER BY payment_date DESC] *)
| SelectPayments
(** [SELECT * FROM payments WHERE customer_account_number = $1
    ORDER BY payment_date DESC] *)
| SelectPaymentsOf (account_number : JsValue)
(** [SELECT SUM(payment_amount) as total FROM payments
    WHERE payment_date::date = CURRENT_DATE] *)
| SumCollectedToday
(** [SELECT SUM(emi_due) as total FROM customers] *)
| SumEmiDue.

(** [result.rows]. The driver hands a numeric column over as text:
    [emi_due] is kept here as the integer that text denotes, which the
    source reads with [parseFloat]; [total] is kept as the text, which the
    source passes on as it is. *)
Inductive Rows :=
| NoRows
| EmiDueRows (l : list Z)
| PaymentRows (l : list Payment)
| TotalRow (total : JsValue).

(** A statement waits for a row lock, raises an error, or completes with
    its rows and the new state. *)
Inductive Exec :=
| Blocked
| Failed
| Done (r : Rows) (db : Db) (t : option Txn).

(** SUM over no rows is NULL; otherwise the driver hands the exact sum
    over as its decimal notation. *)
Definition sum_list (l : list Z) : Z := foldr Z.add 0 l.

Definition sql_sum (l : list Z) : JsValue :=
  match l with
  | [] => JNull
  | _ => JStr (pretty (sum_list l))
  end.

(** [payment_date::date] *)
Definition date_of (ts : Z) : Z := ts `div` 86400.

Definition newer_first (p q : Payment) : Prop := payment_date q ≤ payment_date p.

#[global] Instance newer_first_dec p q : Decision (newer_first p q).
Proof. unfold newer_first. apply _. Defined.

#[global] Instance newer_first_total : Total newer_first.
Proof. intros p q. unfold newer_first. lia. Qed.

#[global] Instance newer_first_trans : Transitive newer_first.
Proof. intros p q r. unfold newer_first. lia. Qed.

(** [ORDER BY payment_date DESC] *)
Definition order_by_payment_date_desc (l : list Payment) : list Payment :=
  merge_sort newer_first l.

(** COMMIT: the pending writes become the committed state. *)
Definition commit (t : Txn) (db : Db) : Db :=
  {| customers :=
       map_imap (λ a c, Some (set_emi_due (default (emi_due c) (t_emi_due t !! a)) c))
                (customers db);
     payments := payments db ++ t_payments t;
     payments_id_seq := payments_id_seq db;
     now := now db |}.

(** A write goes to the open transaction; without one the statement is
    its own transaction (autocommit). *)
Definition write (w : Txn → Txn) (db : Db) (t : option Txn) : Db * option Txn :=
  match t with
  | Some tx => (db, Some (w tx))
  | None => (commit (w empty_txn) db, None)
  end.

Definition add_payment (p : Payment) (t : Txn) : Txn :=
  {| t_payments := t_payments t ++ [p]; t_emi_due := t_emi_due t |}.

Definition put_emi_due (a : string) (v : Z) (t : Txn) : Txn :=
  {| t_payments := t_payments t; t_emi_due := <[a := v]> (t_emi_due t) |}.

(** What a statement of the session sees: the committed rows and the
    writes of its own transaction. *)
Definition pending_due (t : option Txn) (a : string) : option Z :=
  t ≫= λ tx, t_emi_due tx !! a.

Definition visible_due (db : Db) (t : option Txn) (a : string) : option Z :=
  c ← customers db !! a; Some (default (emi_due c) (pending_due t a)).

Definition visible_dues (db : Db) (t : option Txn) : list Z :=
  (λ kc, default (emi_due kc.2) (pending_due t kc.1)) <$> map_to_list (customers db).

Definition visible_payments (db : Db) (t : option Txn) : list Payment :=
  payments db ++ from_option t_payments [] t.

Definition next_id (db : Db) : Db :=
  {| customers := customers db; payments := payments db;
     payments_id_seq := payments_id_seq db + 1; now := now db |}.

(** One statement on the session's connection. [locked] are the customer
    rows locked by the open transactions of the other sessions. INSERT
    fails on an amount that [pg_numeric] does not read and on an account
    that does not exist (the foreign key). The UPDATE stores the number
    it is sent, which is what the server reads from the text of an [exact]
    number. An UPDATE to NaN, which an integer due cannot hold, is not
    modelled: [post_payments] never sends one after an INSERT that
    succeeded ([update_is_a_number]). *)
Definition exec_stmt (locked : gset string) (q : Stmt) (db : Db) (t : option Txn) : Exec :=
  match q with
  | BEGIN => Done NoRows db (Some (default empty_txn t))
  | COMMIT =>
      match t with
      | Some tx => Done NoRows (commit tx db) None
      | None => Done NoRows db None
      end
  | ROLLBACK => Done NoRows db None
  | SelectEmiDue acct =>
      match pg_text acct ≫= visible_due db t with
      | Some due => Done (EmiDueRows [due]) db t
      | None => Done (EmiDueRows []) db t
      end
  | InsertPayment acct amount st =>
      match pg_text acct, pg_numeric amount with
      | Some a, Some z =>
          if decide (is_Some (customers db !! a)) then
            let row := {| id := payments_id_seq db; customer_account_number := a;
                          payment_amount := z; status := st;
                          payment_date := now db |} in
            let '(db', t') := write (add_payment row) (next_id db) t in
            Done (PaymentRows [row]) db' t'
          else Failed
      | _, _ => Failed
      end
  | UpdateEmiDue newDue acct =>
      match newDue with
      | NaN => Failed
      | Num v =>
          match pg_text acct with
          | Some a =>
              if decide (is_Some (customers db !! a)) then
                if decide (a ∈ locked) then Blocked
                else let '(db', t') := write (put_emi_due a v) db t in
                     Done NoRows db' t'
              else Done NoRows db t
          | None => Done NoRows db t
          end
      end
  | SelectPayments =>
      Done (PaymentRows (order_by_payment_date_desc (visible_payments db t))) db t
  | SelectPaymentsOf acct =>
      Done (PaymentRows
              (order_by_payment_date_desc
                 (filter (λ p, Some (customer_account_number p) = pg_text acct)
                         (visible_payments db t)))) db t
  | SumCollectedToday =>
      Done (TotalRow
              (sql_sum (payment_amount <$>
                 filter (λ p, date_of (payment_date p) = date_of (now db))
                        (visible_payments db t)))) db t
  | SumEmiDue => Done (TotalRow (sql_sum (visible_dues db t))) db t
  end.

End Pg.
Export Pg.

(** ** Handlers as programs over the pool *)

(** An async handler up to its next [await]: it has answered ([Ret]), it
    has thrown and nothing caught it ([Throw]), or it waits for the pool or
    the database. A continuation gets [None] (or [false]) when the awaited
    promise is rejected. [PoolQuery] is [pool.query]: it runs one statement
    on a client of its own and hands the client back. *)
Inductive Prog (A : Type) : Type :=
| Ret (a : A)
| Throw
| PoolConnect (k : bool → Prog A)
| Release (k : Prog A)
| Query (q : Stmt) (k : option Rows → Prog A)
| PoolQuery (q : Stmt) (k : option Rows → Prog A).

Arguments Ret {A} a.
Arguments Throw {A}.
Arguments PoolConnect {A} k.
Arguments Release {A} k.
Arguments Query {A} q k.
Arguments PoolQuery {A} q k.

Fixpoint bind {A B} (p : Prog A) (f : A → Prog B) : Prog B :=
  match p with
  | Ret a => f a
  | Throw => Throw
  | PoolConnect k => PoolConnect (λ ok, bind (k ok) f)
  | Release k => Release (bind k f)
  | Query q k => Query q (λ r, bind (k r) f)
  | PoolQuery q k => PoolQuery q (λ r, bind (k r) f)
  end.

#[global] Instance Prog_ret : MRet Prog := @Ret.
#[global] Instance Prog_bind : MBind Prog := λ A B f p, bind p f.

(** [try { p } catch (err) { h }] *)
Fixpoint try_catch {A} (p h : Prog A) : Prog A :=
  match p with
  | Ret a => Ret a
  | Throw => h
  | PoolConnect k => PoolConnect (λ ok, try_catch (k ok) h)
  | Release k => Release (try_catch k h)
  | Query q k => Query q (λ r, try_catch (k r) h)
  | PoolQuery q k => PoolQuery q (λ r, try_catch (k r) h)
  end.

(** [try { p } finally { f }]: [f] runs on a return and on a throw. *)
Fixpoint try_finally {A} (p : Prog A) (f : Prog ()) : Prog A :=
  match p with
  | Ret a => f ;; Ret a
  | Throw => f ;; Throw
  | PoolConnect k => PoolConnect (λ ok, try_finally (k ok) f)
  | Release k => Release (try_finally k f)
  | Query q k => Query q (λ r, try_finally (k r) f)
  | PoolQuery q k => PoolQuery q (λ r, try_finally (k r) f)
  end.

(** [await pool.connect()], [await client.query(q)], [client.release()],
    [await pool.query(q)] *)
Definition pool_connect : Prog () :=
  PoolConnect (λ ok, if ok : bool then Ret () else Throw).

Definition await (r : option Rows) : Prog Rows :=
  match r with
  | Some rows => Ret rows
  | None => Throw
  end.

Definition client_query (q : Stmt) : Prog Rows := Query q await.
Definition client_release : Prog () := Release (Ret ()).
Definition pool_query (q : Stmt) : Prog Rows := PoolQuery q await.

(** Columns of [result.rows]. *)
Definition emi_due_rows (r : Rows) : list Z :=
  match r with EmiDueRows l => l | _ => [] end.

Definition payment_rows (r : Rows) : list Payment :=
  match r with PaymentRows l => l | _ => [] end.

Definition total (r : Rows) : JsValue :=
  match r with TotalRow v => v | _ => JUndefined end.

(** What a handler sends with [res.status(..).json(..)]. *)
Inductive Response :=
| Status200 (rows : list Payment)
| Status201 (payment : option Payment) (new_balance : JsNum)
| Status400
| Status404
| Status500
| Analytics (collected_today pending_total : JsValue).

#[global] Instance Response_eq_dec : EqDecision Response.
Proof. solve_decision. Defined.

(** [app.post('/payments', ...)], lines 49-101. *)
Definition post_payments (account_number amount : JsValue) : Prog Response :=
  if negb (truthy account_number) || negb (truthy amount) then
    Ret Status400
  else
    pool_connect ;;
    try_finally
      (try_catch
         (client_query BEGIN ;;
          customerCheck ← client_query (SelectEmiDue account_number);
          match emi_due_rows customerCheck with
          | [] =>
              client_query ROLLBACK ;;
              Ret Status404
          | emi_due0 :: _ =>
              let currentDue := parseFloat (JNum emi_due0) in
              newPayment ← client_query
                             (InsertPayment account_number amount "SUCCESS");
              let newDue := js_sub currentDue (parseFloat amount) in
              client_query (UpdateEmiDue newDue account_number) ;;
              client_query COMMIT ;;
              Ret (Status201 (payment_rows newPayment !! 0%nat) newDue)
          end)
         (client_query ROLLBACK ;;
          Ret Status500))
      client_release.


(** [app.get('/payments/:account_number', ...)], lines 115-127; a route
    parameter is a string. *)
Definition get_payments_of (account_number : string) : Prog Response :=
  try_catch
    (result ← pool_query (SelectPaymentsOf (JStr account_number));
     Ret (Status200 (payment_rows result)))
    (Ret Status500).

(** [app.get('/analytics', ...)], lines 130-158. *)
Definition get_analytics : Prog Response :=
  try_catch
    (pool_connect ;;
     todayRes ← client_query SumCollectedToday;
     dueRes ← client_query SumEmiDue;
     client_release ;;
     Ret (Analytics (js_or (total todayRes) (JNum 0))
                    (js_or (total dueRes) (JNum 0))))
    (Ret Status500).

(** ** Running a handler *)

(** One awaited statement: [None] while it waits for a row lock,
    otherwise what the promise settles to and the new state. [fault] says
    that the driver rejects the call (connection lost, server error); a
    rejected or failed statement changes nothing. *)
Definition query_step (locked : gset string) (fault : bool) (q : Stmt)
    (db : Db) (t : option Txn) : option (option Rows * Db * option Txn) :=
  if fault then Some (None, db, t)
  else match exec_stmt locked q db t with
       | Blocked => None
       | Failed => Some (None, db, t)
       | Done r db' t' => Some (Some r, db', t')
       end.

Definition set_txn (t : option Txn) (s : Session) : Session :=
  {| held := held s; txn := t |}.

Definition checkout (s : Session) : Session :=
  {| held := S (held s); txn := txn s |}.

Definition checkin (s : Session) : Session :=
  {| held := Nat.pred (held s); txn := txn s |}.

Inductive Outcome (A : Type) : Type :=
| Returned (a : A)
| Rejected
| Waiting.

Arguments Returned {A} a.
Arguments Rejected {A}.
Arguments Waiting {A}.

(** A handler run alone to its end. Each awaited call takes the next
    entry of [faults] ([true]: the call is rejected); past the end of the
    list no call is rejected. [Rejected]: the handler threw and sent no
    response. *)
Fixpoint run {A} (faults : list bool) (p : Prog A) (db : Db) (s : Session)
  : Outcome A * Db * Session :=
  match p with
  | Ret a => (Returned a, db, s)
  | Throw => (Rejected, db, s)
  | PoolConnect k =>
      if head faults is Some true then run (tail faults) (k false) db s
      else run (tail faults) (k true) db (checkout s)
  | Release k => run faults k db (checkin s)
  | Query q k =>
      match query_step ∅ (default false (head faults)) q db (txn s) with
      | Some (r, db', t') => run (tail faults) (k r) db' (set_txn t' s)
      | None => (Waiting, db, s)
      end
  | PoolQuery q k =>
      match query_step ∅ (default false (head faults)) q db None with
      | Some (r, db', _) => run (tail faults) (k r) db' s
      | None => (Waiting, db, s)
      end
  end.

(** ** Concurrent handlers *)

(** Node runs the handlers of concurrent requests interleaved at their
    [await]s, each on its own pool client. The source opens its
    transaction with a plain BEGIN, which is PostgreSQL's READ COMMITTED:
    every statement sees what is committed when it runs, and an UPDATE
    waits while another open transaction holds the lock of the row. *)
Module Concurrent.

Definition Thread : Type := Prog Response * Session.

Record Config := mkConfig {
  store : Db;
  threads : list Thread
}.

Definition locks_of (s : Session) : gset string :=
  from_option (λ t, dom (t_emi_due t)) ∅ (txn s).

(** The rows locked by the threads other than [i]. *)
Definition locked_by_others (i : nat) (ths : list Thread) : gset string :=
  ⋃ (imap (λ j th, if decide (j = i) then ∅ else locks_of th.2) ths).

(** One thread up to its next [await]; [None] when it has ended or
    waits for a lock. *)
Definition step (locked : gset string) (fault : bool) (p : Prog Response)
    (db : Db) (s : Session) : option (Prog Response * Db * Session) :=
  match p with
  | Ret _ | Throw => None
  | PoolConnect k =>
      if fault then Some (k false, db, s) else Some (k true, db, checkout s)
  | Release k => Some (k, db, checkin s)
  | Query q k =>
      '(r, db', t') ← query_step locked fault q db (txn s);
      Some (k r, db', set_txn t' s)
  | PoolQuery q k =>
      '(r, db', _) ← query_step locked fault q db None;
      Some (k r, db', s)
  end.

(** The scheduler resumes thread [i]; [fault] as in [query_step]. A thread
    that cannot move leaves the configuration as it is. *)
Definition resume (c : Config) (choice : nat * bool) : Config :=
  let '(i, fault) := choice in
  match threads c !! i with
  | Some (p, s) =>
      match step (locked_by_others i (threads c)) fault p (store c) s with
      | Some (p', db', s') =>
          {| store := db'; threads := <[i := (p', s')]> (threads c) |}
      | None => c
      end
  | None => c
  end.

Definition run_schedule (schedule : list (nat * bool)) (c : Config) : Config :=
  foldl resume c schedule.

(** The requests as they arrive: nothing checked out, no transaction. *)
Definition spawn (db : Db) (requests : list (Prog Response)) : Config :=
  {| store := db; threads := (λ p, (p, fresh)) <$> requests |}.

Definition responses (c : Config) : list (option Response) :=
  (λ th : Thread, match th.1 with Ret r => Some r | _ => None end) <$> threads c.

End Concurrent.
Import Concurrent.

(** ** Vocabulary of the properties *)

(** The row that [INSERT .. RETURNING *] creates for a payment of [z] on
    account [a] in [db]. *)
Definition receipt (a : string) (z : Z) (db : Db) : Payment :=
  {| id := payments_id_seq db; customer_account_number := a;
     payment_amount := z; status := "SUCCESS"; payment_date := now db |}.

(** Both tables are as they were. *)
Definition same_stores (db db' : Db) : Prop :=
  customers db' = customers db ∧ payments db' = payments db.

(** An input that is missing, null or empty. *)
Definition absent (v : JsValue) : Prop :=
  v = JUndefined ∨ v = JNull ∨ v = JStr "".

(** No account has the key that [account_number] is sent as. *)
Definition unknown_account (account_number : JsValue) (db : Db) : Prop :=
  pg_text account_number ≫= (customers db !!.) = None.

(** The sums of section 4.2: payments dated on the day of [now db], and
    the dues of all accounts. *)
Definition collected_today (db : Db) : Z :=
  sum_list (payment_amount <$>
    filter (λ p, date_of (payment_date p) = date_of (now db)) (payments db)).

Definition pending_total (db : Db) : Z :=
  sum_list ((λ kc : string * Customer, emi_due kc.2) <$> map_to_list (customers db)).

(** [parseFloat(amount)] and [currentDue - parseFloat(amount)] of lines
    69 and 79, as numbers. *)
Definition subtracted (amount : JsValue) : Z :=
  match parseFloat amount with
  | Num y => y
  | NaN => 0
  end.

Definition new_due (c : Customer) (amount : JsValue) : Z :=
  match js_sub (parseFloat (JNum (emi_due c))) (parseFloat amount) with
  | Num v => v
  | NaN => 0
  end.

(** What a run of [post_payments] on [db] may end in, on a client [s]
    that comes without an open transaction. *)
Definition post_payments_spec_on (s : Session) (account_number amount : JsValue)
    (db : Db) (res : Outcome Response * Db * Session) : Prop :=
  let '(out, db', s') := res in
  held s' = held s ∧
  match out with
  | Returned (Status201 p nb) =>
      ∃ a c z,
        truthy account_number = true ∧ truthy amount = true ∧
        pg_text account_number = Some a ∧ customers db !! a = Some c ∧
        pg_numeric amount = Some z ∧
        p = Some (receipt a z db) ∧ nb = Num (new_due c amount) ∧
        customers db' = <[a := set_emi_due (new_due c amount) c]> (customers db) ∧
        payments db' = payments db ++ [receipt a z db]
  | Returned Status400 =>
      truthy account_number && truthy amount = false ∧ db' = db ∧ s' = s
  | Returned Status404 =>
      truthy account_number = true ∧ truthy amount = true ∧
      unknown_account account_number db ∧ db' = db
  | Returned Status500 | Rejected =>
      truthy account_number = true ∧ truthy amount = true ∧ same_stores db db'
  | Returned (Status200 _) | Returned (Analytics _ _) | Waiting => False
  end.

Definition post_payments_spec : JsValue → JsValue → Db →
    Outcome Response * Db * Session → Prop :=
  post_payments_spec_on fresh.

(** The program a thread is left with when its run has ended in [out]. *)
Definition ended {A} (out : Outcome A) (p : Prog A) : Prop :=
  match out with
  | Returned a => p = Ret a
  | Rejected => p = Throw
  | Waiting => False
  end.

(** The account of the scenario of section 8. *)
Definition acc100 : Db :=
  {| customers := {[ "ACC100" := {| emi_due := 5000; other_columns := [("name", "A")] |} ]};
     payments := [];
     payments_id_seq := 1;
     now := 1700000000 |}.

(** Stores with no account and no payment. *)
Definition no_rows : Db :=
  {| customers := ∅; payments := []; payments_id_seq := 1; now := 1700000000 |}.

(** ACC100 after the two payments of the scenario, a day apart. *)
Definition acc100_paid : Db :=
  {| customers := {[ "ACC100" := {| emi_due := -1000; other_columns := [("name", "A")] |} ]};
     payments := [ {| id := 1; customer_account_number := "ACC100";
                      payment_amount := 2000; status := "SUCCESS";
                      payment_date := 1700000000 |};
                   {| id := 2; customer_account_number := "ACC100";
                      payment_amount := 4000; status := "SUCCESS";
                      payment_date := 1700086400 |} ];
     payments_id_seq := 3;
     now := 1700086400 |}.

(** Two requests on ACC100: both read the due, then each inserts, updates
    and commits. Entry [(i, false)] resumes request [i] without a fault. *)
Definition both_read_first : list (nat * bool) :=
  (λ i : nat, (i, false)) <$> [0; 0; 0; 1; 1; 1; 0; 0; 0; 0; 1; 1; 1; 1]%nat.

(** ** The rest of the service *)

(** [app.get('/customers', ...)], lines 35-43: one [pool.query] of
    [SELECT * FROM customers], answered 200 with the rows, which come in no
    particular order, or 500 when the query is rejected. [fault] as in
    [query_step]. *)
Module Customers.

Inductive Response :=
| Status200 (rows : list (string * Customer))
| Status500.



End Customers.




(** The amounts of the payments dated on the day of [now db], and the
    dues of all accounts. *)
Definition amounts_today (db : Db) : list Z :=
  payment_amount <$>
    filter (λ p, date_of (payment_date p) = date_of (now db)) (payments db).

Definition all_dues (db : Db) : list Z :=
  (λ kc : string * Customer, emi_due kc.2) <$> map_to_list (customers db).

(** The field GET /analytics answers for the rows summed: the number 0
    for no row, the decimal notation of the sum otherwise. *)
Definition sum_field (l : list Z) : JsValue :=
  match l with
  | [] => JNum 0
  | _ => JStr (pretty (sum_list l))
  end.



(** ** Lemmas on the numeric conversions and on COMMIT *)

(** Integers up to 2^53 in size are doubles. *)
Lemma to_double_exact z : exact z → to_double z = z.
Proof.
  unfold exact, to_double. intros Hz.
  destruct (Z.ltb_spec (Z.abs z) (2 ^ 53)) as [|Hge]; [done|].
  assert (z = 2 ^ 53 ∨ z = - 2 ^ 53) as [-> | ->] by lia; reflexivity.
Qed.

Lemma numeric_in_parseFloat s z :
  numeric_in s = Some z → parseFloat_str s = Num (to_double z).
Proof.
  unfold numeric_in, parseFloat_str.
  destruct (read_sign (skip_spaces s)) as [neg s1].
  destruct (read_digits None s1) as [[n|] rest]; [|done].
  case_match; [|done]. by intros [= ->].
Qed.

(** When the store reads the amount, [parseFloat] reads a number too. *)
Lemma pg_numeric_parseFloat v z :
  pg_numeric v = Some z → parseFloat v = Num (subtracted v).
Proof.
  unfold subtracted. destruct v; simpl; try done.
  intros Hs. by rewrite (numeric_in_parseFloat _ _ Hs).
Qed.

(** After an INSERT that succeeded, the due computed is a number. *)
Lemma update_is_a_number due amount z :
  pg_numeric amount = Some z →
  ∃ v, js_sub (parseFloat (JNum due)) (parseFloat amount) = Num v.
Proof. intros Hz. rewrite (pg_numeric_parseFloat _ _ Hz). simpl. by eexists. Qed.



Lemma customers_commit_put ins a v c db :
  customers db !! a = Some c →
  customers (commit {| t_payments := ins; t_emi_due := <[a := v]> ∅ |} db)
  = <[a := set_emi_due v c]> (customers db).
Proof.
  intros Ha. unfold commit; cbn [customers t_emi_due].
  apply map_eq. intros b. rewrite map_lookup_imap.
  destruct (decide (a = b)) as [<-|Hne].
  - rewrite Ha. cbn [mbind option_bind]. by rewrite !lookup_insert_eq.
  - rewrite (lookup_insert_ne (customers db)) by done.
    destruct (customers db !! b) as [c'|]; cbn [mbind option_bind]; [|done].
    rewrite lookup_insert_ne by done. rewrite lookup_empty. by destruct c'.
Qed.

(** ** One run of [post_payments], for every fault schedule *)

Ltac next_await :=
  simpl;
  match goal with
  | |- context [head ?f] => is_var f; destruct f as [|[] f]
  | |- context [visible_due _ _ _] => unfold visible_due, pending_due
  | H : pg_text ?v = _ |- context [pg_text ?v] => rewrite H
  | H : pg_numeric ?v = _ |- context [pg_numeric ?v] => rewrite H
  | H : pg_numeric ?v = Some _ |- context [parseFloat ?v] =>
      rewrite (pg_numeric_parseFloat _ _ H)
  | H : customers ?db !! ?a = _ |- context [customers ?db !! ?a] => rewrite H
  | |- context [decide (is_Some (Some ?c))] =>
      destruct (decide (is_Some (Some c))) as [_|[]]; [|by eexists]
  | |- context [decide (is_Some (@None ?A))] =>
      destruct (decide (is_Some (@None A))) as [[]|_]; [done|]
  | |- context [decide (?a ∈ ?X)] =>
      destruct (decide (a ∈ X)) as [?|_]; [set_solver|]
  end.

Lemma post_payments_run_on h faults account_number amount db :
  post_payments_spec_on {| held := h; txn := None |} account_number amount db
    (run faults (post_payments account_number amount) db {| held := h; txn := None |}).
Proof.
  unfold post_payments, post_payments_spec_on, unknown_account, new_due.
  destruct (truthy account_number) eqn:Hacct, (truthy amount) eqn:Hamt;
    simpl; try done.
  destruct (pg_text account_number) as [a|] eqn:Ha.
  2:{ repeat next_await; done. }
  destruct (customers db !! a) as [c|] eqn:Hc.
  2:{ repeat next_await; done. }
  destruct (pg_numeric amount) as [z|] eqn:Hz.
  2:{ repeat next_await; done. }
  repeat next_await; simpl; try done.
  all: split; [done|]; exists a, c, z; rewrite lookup_empty; simpl.
  all: split_and!; try done.
  all: by apply (customers_commit_put [receipt a z db] a _ c (next_id db)).
Qed.


Lemma post_payments_run faults account_number amount db :
  post_payments_spec account_number amount db
    (run faults (post_payments account_number amount) db fresh).
Proof. apply (post_payments_run_on 0). Qed.


(** ** The read side, for every fault schedule *)

Lemma visible_payments_committed db : visible_payments db None = payments db.
Proof. unfold visible_payments. simpl. apply app_nil_r. Qed.




(** ** Atomicity of RecordPayment *)







(** ** Successful payments *)




(** ** Validation *)

Lemma absent_falsy v : absent v → truthy v = false.
Proof. by intros [->|[->| ->]]. Qed.

Lemma falsy_cases v :
  truthy v = false ↔ absent v ∨ v = JNum 0 ∨ v = JBool false.
Proof.
  split.
  - unfold absent. destruct v as [| |[]|n|s]; simpl; try done; auto 6.
    + intros Hn. apply negb_false_iff, Z.eqb_eq in Hn. subst. auto.
    + intros Hs. apply negb_false_iff, String.eqb_eq in Hs. subst. auto 6.
  - intros [H|[->| ->]]; [by apply absent_falsy|done..].
Qed.

(** C4, as amended. A request in which [account_number] or [amount] is
    missing, null or empty is answered 400 by a handler that awaits
    nothing: no client is checked out, no statement is sent. POST /payments
    answers 400 exactly when one of the two inputs is falsy, that is
    missing, null, the empty string, the number 0 or [false]. *)
Theorem validation_rejects_falsy faults account_number amount db :
  (absent account_number ∨ absent amount →
   post_payments account_number amount = Ret Status400) ∧
  (truthy account_number = false ∨ truthy amount = false →
   post_payments account_number amount = Ret Status400 ∧
   run faults (post_payments account_number amount) db fresh
   = (Returned Status400, db, fresh)) ∧
  ((run faults (post_payments account_number amount) db fresh).1.1
   = Returned Status400
   ↔ truthy account_number = false ∨ truthy amount = false) ∧
  (truthy account_number = false ∨ truthy amount = false
   ↔ (absent account_number ∨ account_number = JNum 0 ∨ account_number = JBool false)
     ∨ (absent amount ∨ amount = JNum 0 ∨ amount = JBool false)).
Proof.
  assert (truthy account_number = false ∨ truthy amount = false →
          post_payments account_number amount = Ret Status400) as Hret.
  { unfold post_payments. by intros [-> | ->]; rewrite ?orb_true_r. }
  split_and!.
  - intros [H|H]; apply Hret; [left|right]; by apply absent_falsy.
  - intros H. by rewrite (Hret H).
  - split.
    + pose proof (post_payments_run faults account_number amount db) as H.
      destruct (run faults (post_payments account_number amount) db fresh)
        as [[out db'] s'].
      simpl. intros ->. destruct H as (_ & H & _).
      by apply andb_false_iff.
    + intros H. by rewrite (Hret H).
  - by rewrite !falsy_cases.
Qed.

Lemma validation_rejects_falsy_witness :
  post_payments (JStr "") (JNum 100) = Ret Status400 ∧
  run [] (post_payments (JStr "ACC100") JNull) acc100 fresh
  = (Returned Status400, acc100, fresh).
Proof.
  split.
  - apply (proj1 (validation_rejects_falsy [] (JStr "") (JNum 100) acc100)).
    left. right. right. reflexivity.
  - apply (proj1 (proj2 (validation_rejects_falsy [] (JStr "ACC100") JNull acc100))).
    right. reflexivity.
Defined.

(** Both inputs are present, not null and not empty, and POST /payments
    answers 400: the number 0 is falsy. *)
Lemma rejected_though_present :
  ¬ absent (JStr "ACC100") ∧ ¬ absent (JNum 0) ∧
  post_payments (JStr "ACC100") (JNum 0) = Ret Status400.
Proof.
  unfold absent. split_and!; [intros [H|[H|H]]; discriminate..|reflexivity].
Qed.

(** C9, as amended. An amount that is present and not null but falsy (the
    number 0, [false], the empty string) is answered 400 by a handler that
    awaits nothing, so no payment of the number 0 is recorded, whatever
    the account and the store. The string "0" is not falsy and is not
    covered. *)
Theorem falsy_amount_rejected faults account_number amount db :
  amount ≠ JUndefined → amount ≠ JNull → truthy amount = false →
  (amount = JNum 0 ∨ amount = JBool false ∨ amount = JStr "") ∧
  post_payments account_number amount = Ret Status400 ∧
  run faults (post_payments account_number amount) db fresh
  = (Returned Status400, db, fresh).
Proof.
  intros Hu Hn Hf.
  assert (post_payments account_number amount = Ret Status400) as Hret.
  { unfold post_payments. by rewrite Hf, orb_true_r. }
  split_and!; [|done|by rewrite Hret].
  apply falsy_cases in Hf. unfold absent in Hf. tauto.
Qed.

Lemma falsy_amount_rejected_witness :
  (JNum 0 = JNum 0 ∨ JNum 0 = JBool false ∨ JNum 0 = JStr "") ∧
  post_payments (JStr "ACC100") (JNum 0) = Ret Status400 ∧
  run [] (post_payments (JStr "ACC100") (JNum 0)) acc100 fresh
  = (Returned Status400, acc100, fresh).
Proof.
  apply (falsy_amount_rejected [] (JStr "ACC100") (JNum 0) acc100);
    [discriminate|discriminate|reflexivity].
Defined.

(** A payment of amount zero is recorded when the zero is sent as the
    string "0". *)
Lemma zero_string_is_recorded :
  ∃ p db',
    run [] (post_payments (JStr "ACC100") (JStr "0")) acc100 fresh
    = (Returned (Status201 (Some p) (Num 5000)), db', fresh) ∧
    payment_amount p = 0 ∧ payments db' = [p].
Proof. do 2 eexists. split_and!; reflexivity. Qed.

(** ** Unknown accounts *)




(** ** Analytics *)

Lemma filter_none {A} (P : A → Prop) `{∀ x, Decision (P x)} (l : list A) :
  (∀ x, x ∈ l → ¬ P x) → filter P l = [].
Proof.
  induction l as [|x l IH]; intros Hl; [done|].
  rewrite filter_cons_False by (apply Hl; left).
  apply IH. intros y Hy. apply Hl. by right.
Qed.

Lemma pretty_N_go_nonempty x s : s ≠ "" → pretty_N_go x s ≠ "".
Proof.
  revert s. induction (N.lt_wf_0 x) as [x _ IH]; intros s Hs.
  assert (x = 0 ∨ 0 < x)%N as [->|?] by lia.
  - by rewrite pretty_N_go_0.
  - rewrite pretty_N_go_step by done. apply IH; [by apply N.div_lt|done].
Qed.

(** The decimal notation of an integer is not the empty string, so it is
    truthy: [|| 0] leaves it alone, also for the sum 0. *)
Lemma pretty_Z_nonempty (z : Z) : pretty z ≠ "".
Proof.
  destruct z as [|x|x]; [done| |done].
  unfold pretty, pretty_Z, pretty, pretty_positive, pretty, pretty_N.
  rewrite decide_False by done. rewrite pretty_N_go_step by lia.
  by apply pretty_N_go_nonempty.
Qed.

Lemma or_zero_sum l : js_or (sql_sum l) (JNum 0) = sum_field l.
Proof.
  destruct l as [|x l]; [done|].
  unfold sql_sum, sum_field, js_or, truthy.
  destruct (String.eqb_spec (pretty (sum_list (x :: l))) "") as [Hempty|]; [|done].
  by destruct (pretty_Z_nonempty _ Hempty).
Qed.

Lemma visible_dues_committed db : visible_dues db None = all_dues db.
Proof. done. Qed.

Lemma run_get_analytics db h :
  run [] get_analytics db {| held := h; txn := None |}
  = (Returned (Analytics (sum_field (amounts_today db)) (sum_field (all_dues db))),
     db, {| held := h; txn := None |}).
Proof.
  unfold get_analytics, amounts_today. simpl.
  by rewrite ?visible_payments_committed, ?visible_dues_committed, ?or_zero_sum.
Qed.

(** C6, as amended. On a client that came without an open transaction,
    whatever calls fail, GET /analytics leaves the store as it is and
    answers either 500, and then some call has failed, or the two fields;
    when no call fails it answers the fields. [collected_today] is the
    number 0 when no payment is dated on the server's current day, and
    otherwise the sum of [payment_amount] over the payments of that day in
    the decimal notation the driver hands over, a string; [pending_total]
    is the number 0 when there is no account, and otherwise the sum of
    [emi_due] over all accounts as such a string. *)
Theorem analytics_sums faults db s :
  txn s = None →
  (let '(out, db', _) := run faults get_analytics db s in
   db' = db ∧
   match out with
   | Returned (Analytics ct pt) =>
       ct = sum_field (amounts_today db) ∧ pt = sum_field (all_dues db)
   | Returned Status500 => true ∈ faults
   | _ => False
   end) ∧
  run [] get_analytics db s
  = (Returned (Analytics (sum_field (amounts_today db)) (sum_field (all_dues db))),
     db, s) ∧
  (amounts_today db ≠ [] →
   sum_field (amounts_today db) = JStr (pretty (collected_today db))) ∧
  (all_dues db ≠ [] →
   sum_field (all_dues db) = JStr (pretty (pending_total db))) ∧
  ((∀ p, p ∈ payments db → date_of (payment_date p) ≠ date_of (now db)) →
   sum_field (amounts_today db) = JNum 0) ∧
  (customers db = ∅ → sum_field (all_dues db) = JNum 0).
Proof.
  intros Hclean. destruct s as [h t]. simpl in Hclean. subst t.
  split_and!.
  - unfold get_analytics, amounts_today.
    destruct faults as [|[] [|[] [|[] faults]]]; simpl;
      rewrite ?visible_payments_committed, ?visible_dues_committed, ?or_zero_sum;
      (split; [done|]); try done;
      rewrite !elem_of_cons; auto 10.
  - apply run_get_analytics.
  - unfold sum_field, collected_today, amounts_today. by case_match.
  - unfold sum_field, pending_total, all_dues. by case_match.
  - intros Hnone. unfold amounts_today. by rewrite (filter_none _ _ Hnone).
  - intros Hempty. unfold all_dues. by rewrite Hempty, map_to_list_empty.
Qed.

Lemma analytics_sums_witness :
  run [] get_analytics no_rows fresh
  = (Returned (Analytics (JNum 0) (JNum 0)), no_rows, fresh) ∧
  run [] get_analytics acc100_paid fresh
  = (Returned (Analytics (JStr (pretty (collected_today acc100_paid)))
                         (JStr (pretty (pending_total acc100_paid)))),
     acc100_paid, fresh).
Proof.
  split.
  - etransitivity;
      [exact (proj1 (proj2 (analytics_sums [] no_rows fresh eq_refl)))|].
    by vm_compute.
  - etransitivity;
      [exact (proj1 (proj2 (analytics_sums [] acc100_paid fresh eq_refl)))|].
    by vm_compute.
Defined.

(** With a payment dated today the field is the string "4000", not the
    number 4000; the dues add up to the string "-1000". *)
Lemma analytics_sum_is_text :
  collected_today acc100_paid = 4000 ∧ pending_total acc100_paid = -1000 ∧
  run [] get_analytics acc100_paid fresh
  = (Returned (Analytics (JStr "4000") (JStr "-1000")), acc100_paid, fresh) ∧
  JStr "4000" ≠ JNum 4000.
Proof. split_and!; [by vm_compute..|discriminate]. Qed.

(** ** Payment histories *)



(** The rows of [acc100_paid], newest first. *)
Example payments_of_acc100 :
  run [] (get_payments_of "ACC100") acc100_paid fresh
  = (Returned (Status200 (reverse (payments acc100_paid))), acc100_paid, fresh).
Proof. reflexivity. Qed.

(** ** The scenario of section 8 *)

(** ACC100 owes 5000; a payment of 2000 leaves 3000, a second one of 4000
    leaves -1000, and that is the due stored. *)
Example scenario_acc100 :
  ∃ p1 db1 p2 db2,
    run [] (post_payments (JStr "ACC100") (JNum 2000)) acc100 fresh
    = (Returned (Status201 (Some p1) (Num 3000)), db1, fresh) ∧
    run [] (post_payments (JStr "ACC100") (JNum 4000)) db1 fresh
    = (Returned (Status201 (Some p2) (Num (-1000))), db2, fresh) ∧
    payment_amount <$> payments db2 = [2000; 4000] ∧
    status <$> payments db2 = ["SUCCESS"; "SUCCESS"] ∧
    emi_due <$> customers db2 !! "ACC100" = Some (-1000).
Proof. do 4 eexists. split_and!; reflexivity. Qed.

(** A negative amount is accepted and raises the due. *)
Example negative_amount_raises_due :
  ∃ p db',
    run [] (post_payments (JStr "ACC100") (JNum (-700))) acc100 fresh
    = (Returned (Status201 (Some p) (Num 5700)), db', fresh) ∧
    emi_due <$> customers db' !! "ACC100" = Some 5700.
Proof. do 2 eexists. split; reflexivity. Qed.

(** ** Pool clients *)

(** POST /payments releases its client on every path: its [finally]. *)
Lemma post_payments_releases faults account_number amount db :
  held (run faults (post_payments account_number amount) db fresh).2 = 0%nat.
Proof.
  pose proof (post_payments_run faults account_number amount db) as H.
  destruct (run faults (post_payments account_number amount) db fresh)
    as [[out db'] s'].
  by destruct H as [H _].
Qed.

(** GET /analytics releases its client when both sums succeed. *)
Lemma get_analytics_releases db :
  held (run [] get_analytics db fresh).2 = 0%nat.
Proof. done. Qed.

(** C8 fails on the code. When [pool.connect()] succeeds and the first sum
    is rejected, GET /analytics answers 500 from its [catch], which has no
    [client.release()]: the invocation ends holding one client. *)
Theorem get_analytics_leaks_client db :
  run [false; true] get_analytics db fresh
  = (Returned Status500, db, {| held := 1; txn := None |}).
Proof. reflexivity. Qed.

(** The same when the second sum is rejected. *)
Lemma get_analytics_leaks_client_second db :
  run [false; false; true] get_analytics db fresh
  = (Returned Status500, db, {| held := 1; txn := None |}).
Proof. reflexivity. Qed.

(** ** Running alone and running under a scheduler *)

(** A fault schedule without a fault is the empty one. *)
Lemma run_no_fault {A} (p : Prog A) : ∀ faults db s,
  Forall (eq false) faults → run faults p db s = run [] p db s.
Proof.
  induction p as [a| |k IH|k IH|q k IH|q k IH]; intros faults db s Hf;
    simpl; try done.
  - destruct Hf as [|f faults <- Hf]; [done|]. simpl. by apply IH.
  - by apply IH.
  - destruct Hf as [|f faults <- Hf]; [done|]. simpl.
    destruct (exec_stmt ∅ q db (txn s)) as [| |r db' t']; [done|by apply IH..].
  - destruct Hf as [|f faults <- Hf]; [done|]. simpl.
    destruct (exec_stmt ∅ q db None) as [| |r db' t']; [done|by apply IH..].
Qed.

Lemma locked_alone th : locked_by_others 0 [th] = ∅.
Proof. unfold locked_by_others. simpl. by rewrite (left_id_L ∅ (∪)). Qed.

(** [run] is the scheduler with a single thread: what a handler does
    alone, it does under some schedule that resumes only it. *)
Lemma run_is_a_schedule (p : Prog Response) : ∀ faults db s out db' s',
  run faults p db s = (out, db', s') → out ≠ Waiting →
  ∃ schedule p',
    run_schedule schedule {| store := db; threads := [(p, s)] |}
    = {| store := db'; threads := [(p', s')] |} ∧ ended out p'.
Proof.
  induction p as [a| |k IH|k IH|q k IH|q k IH];
    intros faults db s out db' s'; simpl.
  - intros [= <- <- <-] _. by exists [], (Ret a).
  - intros [= <- <- <-] _. by exists [], Throw.
  - intros Hrun Hout.
    destruct faults as [|[] faults]; simpl in Hrun;
      apply IH in Hrun as (sch & p' & Hsch & Hend); try done.
    + by exists ((0%nat, false) :: sch), p'.
    + by exists ((0%nat, true) :: sch), p'.
    + by exists ((0%nat, false) :: sch), p'.
  - intros Hrun Hout. apply IH in Hrun as (sch & p' & Hsch & Hend); [|done].
    by exists ((0%nat, false) :: sch), p'.
  - intros Hrun Hout.
    destruct (query_step ∅ (default false (head faults)) q db (txn s))
      as [[[r db1] t1]|] eqn:Hq; [|by inversion Hrun; subst].
    apply IH in Hrun as (sch & p' & Hsch & Hend); [|done].
    exists ((0%nat, default false (head faults)) :: sch), p'. split; [|done].
    simpl. by rewrite locked_alone, Hq.
  - intros Hrun Hout.
    destruct (query_step ∅ (default false (head faults)) q db None)
      as [[[r db1] t1]|] eqn:Hq; [|by inversion Hrun; subst].
    apply IH in Hrun as (sch & p' & Hsch & Hend); [|done].
    exists ((0%nat, default false (head faults)) :: sch), p'. split; [|done].
    simpl. by rewrite locked_alone, Hq.
Qed.

(** ** Concurrent payments on one account *)


(** C2 fails on the code. Two requests pay 2000 and 4000 on ACC100, which
    owes 5000. Under the schedule [both_read_first] both answer 201 and
    both rows are committed, but the second UPDATE writes 5000 - 4000 over
    the 3000 of the first: the due ends at 1000, not at
    5000 - (2000 + 4000). *)
Theorem concurrent_payments_lose_update :
  let c := run_schedule both_read_first
             (spawn acc100 [post_payments (JStr "ACC100") (JNum 2000);
                            post_payments (JStr "ACC100") (JNum 4000)]) in
  (∃ p1 p2,
     responses c = [Some (Status201 (Some p1) (Num 3000));
                    Some (Status201 (Some p2) (Num 1000))] ∧
     payments (store c) = [p1; p2] ∧
     payment_amount p1 = 2000 ∧ payment_amount p2 = 4000) ∧
  emi_due <$> customers acc100 !! "ACC100" = Some 5000 ∧
  emi_due <$> customers (store c) !! "ACC100" = Some 1000 ∧
  1000 ≠ 5000 - (2000 + 4000).
Proof.
  split_and!; [|reflexivity|vm_compute; reflexivity|lia].
  do 2 eexists. split_and!; vm_compute; reflexivity.
Qed.

(** The same two requests one after the other end at -1000. *)
Example serial_payments_keep_both :
  let c := run_schedule ((λ i : nat, (i, false)) <$>
                           [0; 0; 0; 0; 0; 0; 0; 1; 1; 1; 1; 1; 1; 1]%nat)
             (spawn acc100 [post_payments (JStr "ACC100") (JNum 2000);
                            post_payments (JStr "ACC100") (JNum 4000)]) in
  emi_due <$> customers (store c) !! "ACC100" = Some (5000 - (2000 + 4000)).
Proof. vm_compute. reflexivity. Qed.

(** While the first request holds the row lock the second cannot update:
    resuming it changes nothing. *)
Example update_waits_for_lock :
  let c := run_schedule ((λ i : nat, (i, false)) <$>
                           [0; 0; 0; 1; 1; 1; 0; 0; 1]%nat)
             (spawn acc100 [post_payments (JStr "ACC100") (JNum 2000);
                            post_payments (JStr "ACC100") (JNum 4000)]) in
  resume c (1%nat, false) = c.
Proof. vm_compute. reflexivity. Qed.

(** ** How a run of POST /payments can end *)

(** X4. Whenever POST /payments sends an answer, its client is back in
    the pool with no transaction open on it. It ends without an answer
    only when some awaited call was rejected, and has released its client
    then too; it never waits for a lock when run alone. *)
Theorem answered_means_settled faults account_number amount db :
  let '(out, db', s') := run faults (post_payments account_number amount) db fresh in
  match out with
  | Returned _ => s' = fresh
  | Rejected => held s' = 0%nat ∧ true ∈ faults
  | Waiting => False
  end.
Proof.
  unfold post_payments.
  destruct (truthy account_number) eqn:Hacct, (truthy amount) eqn:Hamt;
    simpl; try done.
  destruct (pg_text account_number) as [a|] eqn:Ha.
  2:{ repeat next_await; simpl; try done; split; try done;
      rewrite !elem_of_cons; auto 10. }
  destruct (customers db !! a) as [c|] eqn:Hc.
  2:{ repeat next_await; simpl; try done; split; try done;
      rewrite !elem_of_cons; auto 10. }
  destruct (pg_numeric amount) as [z|] eqn:Hz.
  2:{ repeat next_await; simpl; try done; split; try done;
      rewrite !elem_of_cons; auto 10. }
  repeat next_await; simpl; try done; split; try done;
    rewrite !elem_of_cons; auto 10.
Qed.

(** X5. When [pool.connect()] is rejected, POST /payments, whose
    connect is outside its [try], throws without sending an answer and
    touches nothing, while GET /analytics, whose connect is inside, answers
    500. *)
Theorem connect_failure faults account_number amount db :
  truthy account_number = true → truthy amount = true →
  run (true :: faults) (post_payments account_number amount) db fresh
  = (Rejected, db, fresh) ∧
  run (true :: faults) get_analytics db fresh = (Returned Status500, db, fresh).
Proof.
  intros Hacct Hamt. unfold post_payments. by rewrite Hacct, Hamt.
Qed.


Lemma connect_failure_witness :
  run [true] (post_payments (JStr "ACC100") (JNum 2000)) acc100 fresh
  = (Rejected, acc100, fresh) ∧
  run [true] get_analytics acc100 fresh = (Returned Status500, acc100, fresh).
Proof.
  apply (connect_failure [] (JStr "ACC100") (JNum 2000) acc100); reflexivity.
Defined.






(** ** Reading after a payment *)









(** ** Amounts sent as strings *)

Ltac next_await_str :=
  simpl;
  match goal with
  | H : numeric_in ?s = _ |- context [numeric_in ?s] => rewrite H
  | H : numeric_in ?s = Some _ |- context [parseFloat_str ?s] =>
      rewrite (numeric_in_parseFloat _ _ H)
  | H : to_double ?z = ?z |- context [to_double ?z] => rewrite H
  | _ => next_await
  end.

(** X14. An amount sent as an integer literal that denotes [z], with [z]
    not 0 and an integer that doubles hold exactly, is handled exactly
    like the number [z]: same answer, same store, same client, whatever
    calls fail and whatever client the pool hands out. *)
Theorem string_amount_is_its_number faults account_number s z db ss :
  numeric_in s = Some z → z ≠ 0 → exact z →
  run faults (post_payments account_number (JStr s)) db ss
  = run faults (post_payments account_number (JNum z)) db ss.
Proof.
  intros Hs Hz Hez. apply to_double_exact in Hez.
  assert (truthy (JStr s) = true) as Ht1.
  { destruct s; [done|done]. }
  assert (truthy (JNum z) = true) as Ht2.
  { simpl. by apply negb_true_iff, Z.eqb_neq. }
  destruct ss as [h t].
  unfold post_payments. rewrite Ht1, Ht2.
  destruct (truthy account_number); simpl; [|done].
  destruct (pg_text account_number) as [a|] eqn:Ha.
  2:{ repeat next_await_str; done. }
  destruct (customers db !! a) as [c|] eqn:Hc.
  2:{ repeat next_await_str; done. }
  repeat next_await_str; done.
Qed.

Lemma string_amount_is_its_number_witness :
  run [] (post_payments (JStr "ACC100") (JStr " +2000 ")) acc100 fresh
  = run [] (post_payments (JStr "ACC100") (JNum 2000)) acc100 fresh.
Proof.
  apply (string_amount_is_its_number [] (JStr "ACC100") " +2000 " 2000 acc100 fresh);
    [reflexivity|discriminate|unfold exact; split; by vm_compute].
Defined.


(** ** Interleavings of two payments *)







Local Arguments exec_stmt : simpl never.
Local Arguments locked_by_others : simpl never.
Local Arguments commit : simpl never.

Local Arguments run_schedule : simpl never.











